(** * Conway's Game of Life (conways.py): a shallow embedding and its properties

    The program is object-oriented Python: cells are instances of the classes
    [Cell], [Dead] and [Live], a game is an instance of [GameOfLife] holding a
    list of rows of references to cell objects.  The embedding keeps that
    shape: objects live in a store, references are store locations, and every
    function of the source is a computation in a state-and-exception monad.

    Lists are embedded as values: conways.py has no statement that updates a
    list in place, every list it makes comes from a comprehension.  A
    generator is embedded as the list of its items, an item with effects
    being kept as the computation that yields it, so that the effects happen
    where the consumer asks for the item. *)

From Stdlib Require Import ZArith NArith List Bool Lia.
From stdpp Require Import base list.

Local Open Scope Z_scope.

(** ** Exceptions, objects, the store *)

(** The exceptions a run can end with.  [TypeError], [IndexError],
    [AttributeError] and [NotImplementedError] are Python's.
    [InvalidDimensions] and [MalformedSeed] are the two error kinds the
    specification names; no statement of conways.py raises either.
    [DanglingRef] is not a Python exception: it stands for a reference that
    names no object of the store, or an object of the wrong kind, which no
    Python program can produce. *)
Inductive exn :=
| TypeError
| IndexError
| AttributeError
| NotImplementedError
| InvalidDimensions
| MalformedSeed
| DanglingRef.

Definition loc := nat.

(** The three classes of cell objects. *)
Inductive cell_class := Cell_cls | Dead_cls | Live_cls.

(** An object is its class and its instance attributes; an attribute that has
    not been assigned yet is [None]. *)
Inductive object :=
| CellObj (c : cell_class) (is_alive : option bool)
| GameObj (grid : option (list (list loc))) (height width : option Z).

Definition store := list object.

(** ** The monad: a store threaded through, and an exception or a value *)

Definition M (A : Type) : Type := store -> (exn + A) * store.

Definition ret {A} (a : A) : M A := fun s => (inr a, s).

Definition raise {A} (e : exn) : M A := fun s => (inl e, s).

Definition bind {A B} (m : M A) (k : A -> M B) : M B :=
  fun s => match m s with
           | (inr a, s') => k a s'
           | (inl e, s') => (inl e, s')
           end.

Notation "x <- c1 ;; c2" := (bind c1 (fun x => c2))
  (at level 100, c1 at next level, right associativity).
Notation "c1 ;; c2" := (bind c1 (fun _ => c2))
  (at level 100, right associativity).

(** A list comprehension (or the consumption of a generator) whose element
    expression has effects: the elements are evaluated left to right and the
    first exception ends the loop. *)
Fixpoint mapM {A B} (f : A -> M B) (xs : list A) : M (list B) :=
  match xs with
  | [] => ret []
  | x :: xs' => y <- f x ;; ys <- mapM f xs' ;; ret (y :: ys)
  end.

(** The outcome and the final store of a run. *)
Definition outcome {A} (r : (exn + A) * store) : exn + A := fst r.
Definition final {A} (r : (exn + A) * store) : store := snd r.

(** ** Store primitives *)

(** [object.__new__]: a new object at the next free location. *)
Definition new (o : object) : M loc :=
  fun s => (inr (length s), s ++ [o]).

Definition load (l : loc) : M object :=
  fun s => match s !! l with
           | Some o => (inr o, s)
           | None => (inl DanglingRef, s)
           end.

Definition store_at (l : loc) (o : object) : M unit :=
  fun s => (inr tt, <[l := o]> s).

(** [obj.is_alive] *)
Definition getattr_is_alive (l : loc) : M bool :=
  o <- load l ;;
  match o with
  | CellObj _ (Some b) => ret b
  | _ => raise AttributeError
  end.

(** [obj.is_alive = b] *)
Definition setattr_is_alive (l : loc) (b : bool) : M unit :=
  o <- load l ;;
  match o with
  | CellObj c _ => store_at l (CellObj c (Some b))
  | GameObj _ _ _ => raise DanglingRef
  end.

(** [type(obj)] of a cell *)
Definition class_of (l : loc) : M cell_class :=
  o <- load l ;;
  match o with
  | CellObj c _ => ret c
  | GameObj _ _ _ => raise DanglingRef
  end.

(** [obj.grid], [obj.height], [obj.width] *)
Definition getattr_grid (l : loc) : M (list (list loc)) :=
  o <- load l ;;
  match o with
  | GameObj (Some g) _ _ => ret g
  | _ => raise AttributeError
  end.

Definition getattr_height (l : loc) : M Z :=
  o <- load l ;;
  match o with
  | GameObj _ (Some h) _ => ret h
  | _ => raise AttributeError
  end.

Definition getattr_width (l : loc) : M Z :=
  o <- load l ;;
  match o with
  | GameObj _ _ (Some w) => ret w
  | _ => raise AttributeError
  end.

(** [obj.grid = g], [obj.height = h], [obj.width = w] *)
Definition setattr_grid (l : loc) (g : list (list loc)) : M unit :=
  o <- load l ;;
  match o with
  | GameObj _ h w => store_at l (GameObj (Some g) h w)
  | CellObj _ _ => raise DanglingRef
  end.

Definition setattr_height (l : loc) (h : Z) : M unit :=
  o <- load l ;;
  match o with
  | GameObj g _ w => store_at l (GameObj g (Some h) w)
  | CellObj _ _ => raise DanglingRef
  end.

Definition setattr_width (l : loc) (w : Z) : M unit :=
  o <- load l ;;
  match o with
  | GameObj g h _ => store_at l (GameObj g h (Some w))
  | CellObj _ _ => raise DanglingRef
  end.

(** ** Python built-ins the program uses *)

Module Py.

(** A [str] is its sequence of code points. *)
Definition char := N.
Definition pystr := list char.

Definition len {A} (l : list A) : Z := Z.of_nat (length l).

(** [l[i]]: a negative index counts from the end, an index out of range
    raises [IndexError]. *)
Definition getitem {A} (l : list A) (i : Z) : M A :=
  let j := if i <? 0 then i + len l else i in
  if j <? 0 then raise IndexError
  else match l !! Z.to_nat j with
       | Some x => ret x
       | None => raise IndexError
       end.

(** [range(n)]; [range(None)] is a [TypeError]. *)
Definition range (n : option Z) : M (list Z) :=
  match n with
  | None => raise TypeError
  | Some n => ret (map Z.of_nat (seq 0 (Z.to_nat n)))
  end.

(** [enumerate(l)] *)
Definition enumerate {A} (l : list A) : list (Z * A) :=
  combine (map Z.of_nat (seq 0 (length l))) l.

(** [sep.join(parts)] *)
Fixpoint join (sep : pystr) (parts : list pystr) : pystr :=
  match parts with
  | [] => []
  | [p] => p
  | p :: ps => p ++ sep ++ join sep ps
  end.

(** [sum(xs)] *)
Definition sum (xs : list Z) : Z := fold_left Z.add xs 0.

(** [itertools.product(xs, ys)] *)
Definition product {A B} (xs : list A) (ys : list B) : list (A * B) :=
  flat_map (fun x => map (fun y => (x, y)) ys) xs.

(** The line boundaries of [str.splitlines]: LF, CR, VT, FF, FS, GS, RS,
    NEL (U+0085), LINE SEPARATOR (U+2028) and PARAGRAPH SEPARATOR (U+2029). *)
Definition is_linebreak (c : char) : bool :=
  existsb (N.eqb c) [10; 13; 11; 12; 28; 29; 30; 133; 8232; 8233]%N.

(** [s.splitlines()], with the line read so far kept reversed in [cur]:
    CR followed by LF is one boundary, and a text that ends at a boundary
    has no last empty line. *)
Fixpoint splitlines_from (cur : pystr) (s : pystr) : list pystr :=
  match s with
  | [] => match cur with [] => [] | _ => [rev cur] end
  | c :: rest =>
      if is_linebreak c then
        rev cur ::
          match rest with
          | c' :: rest' =>
              if (c =? 13)%N && (c' =? 10)%N then splitlines_from [] rest'
              else splitlines_from [] rest
          | [] => splitlines_from [] rest
          end
      else splitlines_from (c :: cur) rest
  end.

Definition splitlines (s : pystr) : list pystr := splitlines_from [] s.

End Py.

Import Py.

(** ** class Cell, class Dead(Cell), class Live(Cell) *)

(** [Cell.__init__(self, is_alive)]: one required argument besides [self].
    [args] is the list of arguments of the call; with any other number of
    them the call fails while binding the parameters, before the body. *)
Definition Cell__init__ (self : loc) (args : list bool) : M unit :=
  match args with
  | [is_alive] => setattr_is_alive self is_alive
  | _ => raise TypeError
  end.

(** Calling a class object, [C(args)]: [object.__new__] makes the instance,
    then the class's [__init__] runs on it.  Neither [Dead] nor [Live]
    defines [__init__], so all three classes run [Cell.__init__]. *)
Definition instantiate (c : cell_class) (args : list bool) : M loc :=
  self <- new (CellObj c None) ;;
  Cell__init__ self args ;;
  ret self.

Definition Cell_ (args : list bool) : M loc := instantiate Cell_cls args.
Definition Dead_ (args : list bool) : M loc := instantiate Dead_cls args.
Definition Live_ (args : list bool) : M loc := instantiate Live_cls args.

(** [Dead.string_form] is the middle dot U+00B7, [Live.string_form] is the
    digit zero. *)
Definition Dead_string_form : pystr := [183%N].
Definition Live_string_form : pystr := [48%N].

(** [Cell.__str__] *)
Definition Cell__str__ (self : loc) : M pystr :=
  is_alive <- getattr_is_alive self ;;
  ret (if is_alive then Live_string_form else Dead_string_form).

(** [Cell.from_str]: the calls are [Live()] and [Dead()], without argument. *)
Definition Cell_from_str (string : pystr) : M loc :=
  if bool_decide (string = Live_string_form) then Live_ [] else Dead_ [].

(** [Cell.next_state], [Dead.next_state], [Live.next_state] *)
Definition Cell_next_state (self : loc) (neighbor_count : Z) : M loc :=
  raise NotImplementedError.

Definition Dead_next_state (self : loc) (neighbor_count : Z) : M loc :=
  if neighbor_count =? 3 then Live_ [] else Dead_ [].

Definition Live_next_state (self : loc) (neighbor_count : Z) : M loc :=
  if existsb (Z.eqb neighbor_count) [2; 3] then Live_ [] else Dead_ [].

(** [cell.next_state(neighbor_count)]: the method of the cell's class. *)
Definition next_state (cell : loc) (neighbor_count : Z) : M loc :=
  c <- class_of cell ;;
  match c with
  | Cell_cls => Cell_next_state cell neighbor_count
  | Dead_cls => Dead_next_state cell neighbor_count
  | Live_cls => Live_next_state cell neighbor_count
  end.

(** ** class GameOfLife *)

Module GameOfLife.

(** [dead_grid(cls, *, height=None, width=None)]: a list of rows, not a
    [GameOfLife] instance. *)
Definition dead_grid (height width : option Z) : M (list (list loc)) :=
  rows <- range height ;;
  mapM (fun _ => cols <- range width ;; mapM (fun _ => Dead_ []) cols) rows.

(** [__init__(self, grid=None)] *)
Definition __init__ (self : loc) (grid : list (list loc)) : M unit :=
  setattr_grid self grid ;;
  setattr_height self (len grid) ;;
  row0 <- getitem grid 0 ;;
  setattr_width self (len row0).

(** [GameOfLife(grid=grid)] *)
Definition GameOfLife_ (grid : list (list loc)) : M loc :=
  self <- new (GameObj None None None) ;;
  __init__ self grid ;;
  ret self.

(** [from_str(cls, string)]: iterating over a line gives its characters as
    strings of length one. *)
Definition non_empty_lines (string : pystr) : list pystr :=
  List.filter (fun line => 0 <? len line) (splitlines string).

Definition from_str (string : pystr) : M loc :=
  parsed_grid <-
    mapM (fun line => mapM (fun char => Cell_from_str [char]) line)
         (non_empty_lines string) ;;
  GameOfLife_ parsed_grid.

(** [__str__(self)] *)
Definition __str__ (self : loc) : M pystr :=
  grid <- getattr_grid self ;;
  lines <- mapM (fun row => strs <- mapM Cell__str__ row ;; ret (join [] strs))
                grid ;;
  ret (join [10%N] lines).

(** [get(self, row, col, default=None)]; the result [None] is Python's
    [None].  A chained comparison reads its right operand only when the
    left comparison holds. *)
Definition get (self : loc) (row col : Z) (default : option loc)
  : M (option loc) :=
  is_within_rows <-
    (if 0 <=? row then height <- getattr_height self ;; ret (row <? height)
     else ret false) ;;
  is_within_cols <-
    (if 0 <=? col then width <- getattr_width self ;; ret (col <? width)
     else ret false) ;;
  if is_within_rows && is_within_cols then
    grid <- getattr_grid self ;;
    r <- getitem grid row ;;
    cell <- getitem r col ;;
    ret (Some cell)
  else ret default.

Definition directions_1D : list Z := [-1; 0; 1].

(** [count_live_neighbors(self, row, col)]: the argument [default=Dead()]
    is evaluated at each call of [is_coord_alive], before [get] runs. *)
Definition is_coord_alive (self : loc) (coord : Z * Z) : M Z :=
  default <- Dead_ [] ;;
  cell <- get self (fst coord) (snd coord) (Some default) ;;
  match cell with
  | Some c => is_alive <- getattr_is_alive c ;; ret (Z.b2z is_alive)
  | None => raise AttributeError
  end.

Definition count_live_neighbors (self : loc) (row col : Z) : M Z :=
  let directions_2D := product directions_1D directions_1D in
  let neighbor_coords :=
    map (fun d => (row + fst d, col + snd d))
        (List.filter (fun d => negb ((fst d =? 0) && (snd d =? 0)))
                     directions_2D) in
  counts <- mapM (is_coord_alive self) neighbor_coords ;;
  ret (sum counts).

(** [coordinate(self)]: each cell with its (row, column). *)
Definition coordinate (self : loc) : M (list (list ((Z * Z) * loc))) :=
  grid <- getattr_grid self ;;
  ret (map (fun ir => map (fun jc => ((fst ir, fst jc), snd jc))
                          (enumerate (snd ir)))
           (enumerate grid)).

(** [grid_with_live_neighbor_counts(self)]: a generator of generators.  An
    item is computed when the consumer asks for it, so each item is kept as
    the computation that yields it. *)
Definition grid_with_live_neighbor_counts (self : loc)
  : M (list (list (M (loc * Z)))) :=
  coordinated <- coordinate self ;;
  ret (map (fun coordinated_row =>
              map (fun rc_cell =>
                     n <- count_live_neighbors self (fst (fst rc_cell))
                                               (snd (fst rc_cell)) ;;
                     ret (snd rc_cell, n))
                  coordinated_row)
           coordinated).

(** [next_generation(self)] *)
Definition next_generation (self : loc) : M loc :=
  rows <- grid_with_live_neighbor_counts self ;;
  next_grid <-
    mapM (fun row =>
            mapM (fun item =>
                    cn <- item ;;
                    next_state (fst cn) (snd cn))
                 row)
         rows ;;
  GameOfLife_ next_grid.

End GameOfLife.

(** ** Inputs *)

(** The middle dot, the digit zero and the line feed. *)
Definition chr_dead : char := 183%N.
Definition chr_live : char := 48%N.
Definition chr_nl : char := 10%N.

(** The seed of [glider_example] after [dedent]: an empty first line, then six
    rows of seven characters, each ended by a line feed. *)

Definition glider_string : pystr :=
  let d := chr_dead in
  let o := chr_live in
  let nl := chr_nl in
  [nl; d; d; o; d; d; d; d; nl;
       o; d; o; d; d; d; d; nl;
       d; o; o; d; d; d; d; nl;
       d; d; d; d; d; d; d; nl;
       d; d; d; d; d; d; d; nl;
       d; d; d; d; d; d; d; nl].

(** A game built cell by cell, each cell by a call that does pass the
    argument: [Live(True)] where the flag is set and [Dead(False)] elsewhere,
    then [GameOfLife(grid=...)]. *)
Definition make_cell (alive : bool) : M loc :=
  if alive then Live_ [true] else Dead_ [false].

Definition make_game (rows : list (list bool)) : M loc :=
  grid <- mapM (mapM make_cell) rows ;;
  GameOfLife.GameOfLife_ grid.

(** [str(GameOfLife.from_str(string))], the rendering of a parsed seed. *)
Definition render_parse (string : pystr) : M pystr :=
  g <- GameOfLife.from_str string ;; GameOfLife.__str__ g.

(** The rows of the glider seed as flags, and the all-dead rows. *)
Definition glider_rows : list (list bool) :=
  let t := true in
  let f := false in
  [[f; f; t; f; f; f; f];
   [t; f; t; f; f; f; f];
   [f; t; t; f; f; f; f];
   [f; f; f; f; f; f; f];
   [f; f; f; f; f; f; f];
   [f; f; f; f; f; f; f]].

Definition dead_rows (height width : Z) : list (list bool) :=
  replicate (Z.to_nat height) (replicate (Z.to_nat width) false).

(** A store holding the game [GameOfLife(grid=[[Live(True)]])] at location 1,
    its one cell at location 0. *)
Definition one_live_cell : store := final (make_game [[true]] []).

(** A store holding the game [GameOfLife(grid=[[]])], one row without cell. *)
Definition one_empty_row : store := final (make_game [[]] []).

(** ** What a computation may do to the store *)

(** [extends m]: a run of [m], whether it returns or raises, leaves every
    object that was in the store as it was; it may only add objects. *)
Definition extends {A} (m : M A) : Prop :=
  forall s, s `prefix_of` final (m s).

(** [returns m a]: some run of [m] returns [a]. *)
Definition returns {A} (m : M A) (a : A) : Prop :=
  exists s, outcome (m s) = inr a.

(** [ensures P m]: a value returned by [m] satisfies [P] at the size the store
    had when the run began. *)
Definition ensures {A} (P : nat -> A -> Prop) (m : M A) : Prop :=
  forall s a, outcome (m s) = inr a -> P (length s) a.

Definition antitone {A} (P : nat -> A -> Prop) : Prop :=
  forall n n' a, (n' <= n)%nat -> P n a -> P n' a.

(** A location is fresh at store size [n] when a store of that size has no
    object there. *)
Definition fresh_at (n : nat) (l : loc) : Prop := (n <= l)%nat.

(** ** Names for what the source computes in passing *)

(** The coordinates [count_live_neighbors] visits, in the order it visits
    them: [neighbor_coords] of the source. *)
Definition neighbor_coords (row col : Z) : list (Z * Z) :=
  map (fun d => (row + fst d, col + snd d))
      (List.filter (fun d => negb ((fst d =? 0) && (snd d =? 0)))
                   (product GameOfLife.directions_1D
                            GameOfLife.directions_1D)).

(** The character [Cell.__str__] gives for a flag, and the text of rows of
    flags: the characters of a row, rows separated by a line feed. *)
Definition symbol (alive : bool) : char :=
  if alive then chr_live else chr_dead.

Definition text_of (flags : list (list bool)) : pystr :=
  join [chr_nl] (map (map symbol) flags).

(** [cells_hold s grid flags]: the grid has the shape of [flags], and each of
    its references names, in [s], a cell object of any class whose
    [is_alive] is the flag at that place. *)
Definition cell_holds (s : store) (l : loc) (b : bool) : Prop :=
  exists c, s !! l = Some (CellObj c (Some b)).

Definition cells_hold (s : store) (grid : list (list loc))
  (flags : list (list bool)) : Prop :=
  Forall2 (Forall2 (cell_holds s)) grid flags.

(** A character that is no line boundary of [splitlines]. *)
Definition no_linebreak (c : char) : Prop := is_linebreak c = false.

(** [readonly m]: no run of [m], returning or raising, changes the store. *)
Definition readonly {A} (m : M A) : Prop := forall s, final (m s) = s.

(** * Properties *)

Import GameOfLife.

(** ** Running a computation *)

Lemma bind_inl {A B} (m : M A) (k : A -> M B) s e s' :
  m s = (inl e, s') -> bind m k s = (inl e, s').
Proof. intros H. unfold bind. now rewrite H. Qed.

Lemma bind_inr {A B} (m : M A) (k : A -> M B) s a s' :
  m s = (inr a, s') -> bind m k s = k a s'.
Proof. intros H. unfold bind. now rewrite H. Qed.

Lemma outcome_bind_inl {A B} (m : M A) (k : A -> M B) s e :
  outcome (m s) = inl e -> outcome (bind m k s) = inl e.
Proof.
  unfold outcome, bind. destruct (m s) as [[e'|a] s']; simpl; congruence.
Qed.

(** ** The constructor calls without argument *)

(** [Dead()], [Live()] and [Cell()] raise [TypeError]: the instance exists
    already, uninitialised, and no reference to it is kept. *)
Lemma instantiate_no_arg c s :
  instantiate c [] s = (inl TypeError, s ++ [CellObj c None]).
Proof. reflexivity. Qed.

Lemma Cell_from_str_raises string s :
  outcome (Cell_from_str string s) = inl TypeError.
Proof. unfold Cell_from_str. now destruct (bool_decide _). Qed.

Lemma Dead_next_state_raises self n s :
  outcome (Dead_next_state self n s) = inl TypeError.
Proof. unfold Dead_next_state. now destruct (n =? 3). Qed.

Lemma Live_next_state_raises self n s :
  outcome (Live_next_state self n s) = inl TypeError.
Proof. unfold Live_next_state. now destruct (existsb _ _). Qed.

Lemma is_coord_alive_raises self coord s :
  is_coord_alive self coord s = (inl TypeError, s ++ [CellObj Dead_cls None]).
Proof. reflexivity. Qed.

Lemma count_live_neighbors_raises self row col s :
  count_live_neighbors self row col s
  = (inl TypeError, s ++ [CellObj Dead_cls None]).
Proof. reflexivity. Qed.

(** A nested comprehension whose element expression raises [e] at every cell
    raises [e] as soon as a row has a cell; the rows before it are empty and
    evaluate to empty rows. *)
Lemma mapM_raises {A B} (f : A -> M B) e (xs : list A) s :
  xs <> [] ->
  (forall x s', x ∈ xs -> outcome (f x s') = inl e) ->
  outcome (mapM f xs s) = inl e.
Proof.
  destruct xs as [|x xs]; [congruence|]. intros _ Hf. simpl.
  apply outcome_bind_inl, Hf. left.
Qed.

Lemma mapM_nil {A B} (f : A -> M B) s : mapM f [] s = (inr [], s).
Proof. reflexivity. Qed.

Lemma mapM_mapM_raises {A B} (f : A -> M B) e (rows : list (list A)) s :
  (exists row, row ∈ rows /\ row <> []) ->
  (forall row x s', row ∈ rows -> x ∈ row -> outcome (f x s') = inl e) ->
  outcome (mapM (mapM f) rows s) = inl e.
Proof.
  induction rows as [|row rows IH]; intros [r [Hin Hne]] Hf.
  - inversion Hin.
  - simpl. destruct row as [|x row].
    + rewrite (bind_inr _ _ s [] s) by reflexivity.
      assert (Hrows : outcome (mapM (mapM f) rows s) = inl e).
      { apply IH.
        - exists r. split; [|exact Hne].
          apply elem_of_cons in Hin as [->|Hin]; [congruence|exact Hin].
        - intros row x s' Hrow Hx. apply (Hf row x s'); [now right|exact Hx]. }
      now apply outcome_bind_inl.
    + apply outcome_bind_inl, mapM_raises; [congruence|].
      intros y s' Hy. apply (Hf (x :: row) y s'); [left|exact Hy].
Qed.

(** ** Objects made by constructor calls *)

Lemma lookup_fresh (s : store) (o : object) : (s ++ [o]) !! length s = Some o.
Proof. rewrite lookup_app_r by lia. now rewrite Nat.sub_diag. Qed.

Lemma insert_fresh (s : store) (o o' : object) :
  <[length s := o']> (s ++ [o]) = s ++ [o'].
Proof. rewrite insert_app_r_alt by lia. now rewrite Nat.sub_diag. Qed.

Lemma load_fresh (s : store) (o : object) :
  load (length s) (s ++ [o]) = (inr o, s ++ [o]).
Proof. unfold load. now rewrite lookup_fresh. Qed.

(** [C(b)] with its one argument: the new instance, initialised. *)
Lemma instantiate_one_arg c b s :
  instantiate c [b] s = (inr (length s), s ++ [CellObj c (Some b)]).
Proof.
  unfold instantiate, new, Cell__init__, setattr_is_alive, store_at, bind.
  rewrite load_fresh. now rewrite insert_fresh.
Qed.

(** Whatever the arguments, a constructor call adds one object and changes
    nothing else. *)
Lemma instantiate_final c args s :
  exists o, final (instantiate c args s) = s ++ [o].
Proof.
  destruct args as [|b [|b' args]].
  - rewrite instantiate_no_arg. now eexists.
  - rewrite instantiate_one_arg. now eexists.
  - now eexists.
Qed.

Lemma instantiate_result c args s l :
  outcome (instantiate c args s) = inr l -> l = length s.
Proof.
  destruct args as [|b [|b' args]].
  - rewrite instantiate_no_arg. discriminate.
  - rewrite instantiate_one_arg. simpl. congruence.
  - discriminate.
Qed.

Lemma getitem_0 {A} (x : A) (l : list A) s : getitem (x :: l) 0 s = (inr x, s).
Proof. reflexivity. Qed.

(** [GameOfLife(grid=grid)]: with no row, [grid[0]] raises [IndexError] after
    [grid] and [height] have been assigned. *)
Lemma GameOfLife__run grid s :
  GameOfLife_ grid s =
  match grid with
  | [] => (inl IndexError, s ++ [GameObj (Some []) (Some 0) None])
  | row0 :: _ =>
      (inr (length s),
       s ++ [GameObj (Some grid) (Some (len grid)) (Some (len row0))])
  end.
Proof.
  unfold GameOfLife_, __init__, new, setattr_grid, setattr_height,
    setattr_width, store_at, bind.
  rewrite load_fresh, insert_fresh, load_fresh, insert_fresh.
  destruct grid as [|row0 grid]; [reflexivity|].
  rewrite getitem_0. now rewrite load_fresh, insert_fresh.
Qed.

(** ** Reading a game object *)

Lemma getattr_grid_run s self grid h w :
  s !! self = Some (GameObj (Some grid) h w) ->
  getattr_grid self s = (inr grid, s).
Proof. intros H. unfold getattr_grid, bind, load. now rewrite H. Qed.

Lemma enumerate_from_snd {A} (l : list A) k :
  map snd (combine (map Z.of_nat (seq k (length l))) l) = l.
Proof.
  revert k. induction l as [|x l IH]; intros k; [reflexivity|].
  simpl. f_equal. apply IH.
Qed.

Lemma enumerate_snd {A} (l : list A) : map snd (enumerate l) = l.
Proof. apply enumerate_from_snd. Qed.

Lemma enumerate_nil {A} (l : list A) : enumerate l = [] -> l = [].
Proof. intros H. rewrite <- (enumerate_snd l). now rewrite H. Qed.

(** ** [next_generation] on a grid that has a cell *)

(** The first cell the comprehension reaches asks for its neighbour count,
    and the first neighbour evaluates [Dead()]. *)
Lemma next_generation_raises s self grid h w :
  s !! self = Some (GameObj (Some grid) h w) ->
  (exists row, row ∈ grid /\ row <> []) ->
  outcome (next_generation self s) = inl TypeError.
Proof.
  intros Hself [row [Hrow Hne]].
  unfold next_generation, grid_with_live_neighbor_counts, coordinate.
  erewrite bind_inr; cycle 1.
  { erewrite bind_inr; cycle 1.
    { erewrite bind_inr; [reflexivity|]. eapply getattr_grid_run, Hself. }
    reflexivity. }
  apply outcome_bind_inl.
  apply (mapM_mapM_raises
           (fun item : M (loc * Z) => cn <- item ;; next_state (fst cn) (snd cn))).
  - rewrite <- (enumerate_snd grid) in Hrow.
    apply list_elem_of_fmap in Hrow as [ir [-> Hir]].
    eexists. split.
    + apply list_elem_of_fmap. eexists. split; [reflexivity|].
      apply list_elem_of_fmap. eexists. split; [reflexivity|exact Hir].
    + intros Hnil. apply Hne.
      apply fmap_nil_inv in Hnil. apply fmap_nil_inv in Hnil.
      now apply enumerate_nil.
  - intros r item s' Hr Hitem.
    apply list_elem_of_fmap in Hr as [cr [-> _]].
    apply list_elem_of_fmap in Hitem as [rc [-> _]].
    apply outcome_bind_inl, outcome_bind_inl.
    now rewrite count_live_neighbors_raises.
Qed.

(** A rectangular grid with a row and a column has a cell. *)
Lemma rectangular_has_cell (grid : list (list loc)) w :
  grid <> [] -> 0 < w -> Forall (fun row => len row = w) grid ->
  exists row, row ∈ grid /\ row <> [].
Proof.
  destruct grid as [|row grid]; [congruence|]. intros _ Hw Hall.
  exists row. split; [left|].
  apply Forall_cons in Hall as [Hrow _]. intros ->. unfold len in Hrow.
  simpl in Hrow. lia.
Qed.

(** ** [from_str] *)

Lemma non_empty_lines_non_empty string line :
  line ∈ non_empty_lines string -> line <> [].
Proof.
  unfold non_empty_lines. rewrite list_elem_of_In, filter_In.
  intros [_ H] ->. discriminate.
Qed.

Lemma from_str_no_row string s :
  non_empty_lines string = [] ->
  from_str string s
  = (inl IndexError, s ++ [GameObj (Some []) (Some 0) None]).
Proof.
  intros H. unfold from_str. rewrite H.
  rewrite (bind_inr _ _ s [] s) by reflexivity.
  now rewrite GameOfLife__run.
Qed.

Lemma from_str_some_row string s :
  non_empty_lines string <> [] ->
  outcome (from_str string s) = inl TypeError.
Proof.
  intros H. unfold from_str. apply outcome_bind_inl.
  apply (mapM_mapM_raises (fun char : char => Cell_from_str [char])).
  - destruct (non_empty_lines string) as [|line lines] eqn:E; [congruence|].
    exists line. split; [left|].
    apply (non_empty_lines_non_empty string). rewrite E. left.
  - intros. apply Cell_from_str_raises.
Qed.

(** ** [dead_grid] *)

Lemma mapM_const_nil {A B} (g : M (list B)) (xs : list A) s :
  (forall s', g s' = (inr [], s')) ->
  mapM (fun _ => g) xs s = (inr (replicate (length xs) []), s).
Proof.
  intros Hg. induction xs as [|x xs IH]; [reflexivity|].
  simpl. rewrite (bind_inr _ _ s [] s) by apply Hg.
  now rewrite (bind_inr _ _ s _ s IH).
Qed.

Lemma dead_grid_no_cell h w s :
  h <= 0 \/ w <= 0 ->
  dead_grid (Some h) (Some w) s = (inr (replicate (Z.to_nat h) []), s).
Proof.
  intros Hhw. unfold dead_grid.
  rewrite (bind_inr _ _ s (map Z.of_nat (seq 0 (Z.to_nat h))) s) by reflexivity.
  destruct (Z_le_gt_dec h 0) as [Hh|Hh].
  - replace (Z.to_nat h) with 0%nat by lia. reflexivity.
  - assert (Hw : Z.to_nat w = 0%nat) by lia.
    rewrite mapM_const_nil.
    + now rewrite length_map, length_seq.
    + intros s'. unfold range. now rewrite Hw.
Qed.

Lemma dead_grid_raises h w s :
  0 < h -> 0 < w ->
  outcome (dead_grid (Some h) (Some w) s) = inl TypeError.
Proof.
  intros Hh Hw. unfold dead_grid, range.
  destruct (Z.to_nat h) as [|n] eqn:Eh; [lia|].
  destruct (Z.to_nat w) as [|m] eqn:Ew; [lia|].
  reflexivity.
Qed.

(** ** Games built cell by cell *)

Lemma make_cell_run b s :
  exists o, make_cell b s = (inr (length s), s ++ [o]).
Proof.
  unfold make_cell, Live_, Dead_.
  destruct b; rewrite instantiate_one_arg; now eexists.
Qed.

Lemma make_row_run (row : list bool) s :
  exists cells s', mapM make_cell row s = (inr cells, s')
                   /\ length cells = length row.
Proof.
  revert s. induction row as [|b row IH]; intros s.
  - now exists [], s.
  - destruct (make_cell_run b s) as [o Hb].
    destruct (IH (s ++ [o])) as (cells & s' & Hrow & Hlen).
    exists (length s :: cells), s'. split; [|simpl; now rewrite Hlen].
    simpl. rewrite (bind_inr _ _ _ _ _ Hb).
    now rewrite (bind_inr _ _ _ _ _ Hrow).
Qed.

Lemma make_rows_run (rows : list (list bool)) s :
  exists grid s', mapM (mapM make_cell) rows s = (inr grid, s')
                  /\ map length grid = map length rows.
Proof.
  revert s. induction rows as [|row rows IH]; intros s.
  - now exists [], s.
  - destruct (make_row_run row s) as (cells & s1 & Hrow & Hlen).
    destruct (IH s1) as (grid & s' & Hrows & Hlens).
    exists (cells :: grid), s'. split; [|simpl; now rewrite Hlen, Hlens].
    simpl. rewrite (bind_inr _ _ _ _ _ Hrow).
    now rewrite (bind_inr _ _ _ _ _ Hrows).
Qed.

Lemma has_cell_lengths {A B} (l1 : list (list A)) (l2 : list (list B)) :
  map length l1 = map length l2 ->
  (exists row, row ∈ l2 /\ row <> []) ->
  exists row, row ∈ l1 /\ row <> [].
Proof.
  revert l2. induction l1 as [|r1 l1 IH]; intros [|r2 l2] Hlen [row [Hin Hne]];
    try discriminate.
  - inversion Hin.
  - injection Hlen as Hr Hl.
    apply elem_of_cons in Hin as [->|Hin].
    + exists r1. split; [left|]. intros ->.
      destruct r2; [congruence|discriminate].
    + destruct (IH l2 Hl) as [r [Hr1 Hr2]]; [now exists row|].
      exists r. split; [now right|exact Hr2].
Qed.

(** A game built from rows that hold a cell exists, and its next generation
    raises [TypeError]. *)
Lemma make_game_next_generation_raises (rows : list (list bool)) s :
  (exists row, row ∈ rows /\ row <> []) ->
  outcome ((g <- make_game rows ;; next_generation g) s) = inl TypeError.
Proof.
  intros Hcell. unfold make_game.
  destruct (make_rows_run rows s) as (grid & s' & Hrows & Hlens).
  assert (Hgrid : exists row, row ∈ grid /\ row <> [])
    by (eapply has_cell_lengths; eauto).
  destruct grid as [|row0 grid].
  { destruct Hgrid as [r [Hr _]]. inversion Hr. }
  erewrite bind_inr; cycle 1.
  { erewrite bind_inr by exact Hrows. rewrite GameOfLife__run. reflexivity. }
  eapply next_generation_raises; [apply lookup_fresh|exact Hgrid].
Qed.

(** ** The store only grows *)

Lemma bind_returns {A B} (m : M A) (k : A -> M B) s b :
  outcome (bind m k s) = inr b ->
  exists a s', m s = (inr a, s') /\ outcome (k a s') = inr b.
Proof.
  unfold bind, outcome. destruct (m s) as [[e|a] s']; simpl; [discriminate|].
  intros H. now exists a, s'.
Qed.

Lemma extends_ret {A} (a : A) : extends (ret a).
Proof. intros s. reflexivity. Qed.

Lemma extends_raise {A} e : extends (@raise A e).
Proof. intros s. reflexivity. Qed.

Lemma extends_bind_returns {A B} (m : M A) (k : A -> M B) :
  extends m -> (forall a, returns m a -> extends (k a)) -> extends (bind m k).
Proof.
  intros Hm Hk s. unfold bind.
  destruct (m s) as [[e|a] s'] eqn:E.
  - specialize (Hm s). now rewrite E in Hm.
  - etransitivity; [|apply Hk].
    + specialize (Hm s). now rewrite E in Hm.
    + exists s. now rewrite E.
Qed.

Lemma extends_bind {A B} (m : M A) (k : A -> M B) :
  extends m -> (forall a, extends (k a)) -> extends (bind m k).
Proof. intros Hm Hk. apply extends_bind_returns; auto. Qed.

Lemma extends_mapM {A B} (f : A -> M B) (xs : list A) :
  (forall x, x ∈ xs -> extends (f x)) -> extends (mapM f xs).
Proof.
  induction xs as [|x xs IH]; intros Hf; simpl.
  - apply extends_ret.
  - apply extends_bind; [apply Hf; left|]. intros y.
    apply extends_bind; [|intros ys; apply extends_ret].
    apply IH. intros z Hz. apply Hf. now right.
Qed.

Lemma extends_new o : extends (new o).
Proof. intros s. now apply prefix_app_r. Qed.

Lemma extends_load l : extends (load l).
Proof. intros s. unfold load. case_match; reflexivity. Qed.

Lemma extends_getitem {A} (l : list A) i : extends (getitem l i).
Proof.
  unfold getitem. destruct (_ <? 0); [apply extends_raise|].
  destruct (l !! _); [apply extends_ret|apply extends_raise].
Qed.

Lemma extends_range n : extends (range n).
Proof. destruct n; [apply extends_ret|apply extends_raise]. Qed.

Lemma extends_instantiate c args : extends (instantiate c args).
Proof.
  intros s. destruct (instantiate_final c args s) as [o ->].
  now apply prefix_app_r.
Qed.

Lemma extends_GameOfLife_ grid : extends (GameOfLife_ grid).
Proof.
  intros s. rewrite GameOfLife__run.
  destruct grid; now apply prefix_app_r.
Qed.

Create HintDb frame.

#[local] Hint Resolve extends_ret extends_raise extends_new extends_load
  extends_getitem extends_range extends_instantiate extends_GameOfLife_
  : frame.

(** One step of a frame proof: a known computation, a sequence, a loop, or a
    case distinction of the code. *)
Ltac frame_step :=
  match goal with
  | |- extends (bind _ _) => apply extends_bind; [|intros ?]
  | |- extends (mapM _ _) => apply extends_mapM; intros ? ?
  | |- extends (match ?x with _ => _ end) => destruct x
  | |- extends _ => solve [auto with frame]
  end.

Ltac frame := repeat frame_step.

Lemma extends_getattr_is_alive l : extends (getattr_is_alive l).
Proof. unfold getattr_is_alive. frame. Qed.

Lemma extends_class_of l : extends (class_of l).
Proof. unfold class_of. frame. Qed.

Lemma extends_getattr_grid l : extends (getattr_grid l).
Proof. unfold getattr_grid. frame. Qed.

Lemma extends_getattr_height l : extends (getattr_height l).
Proof. unfold getattr_height. frame. Qed.

Lemma extends_getattr_width l : extends (getattr_width l).
Proof. unfold getattr_width. frame. Qed.

#[local] Hint Resolve extends_getattr_is_alive extends_class_of
  extends_getattr_grid extends_getattr_height extends_getattr_width : frame.

Lemma extends_next_state cell n : extends (next_state cell n).
Proof.
  unfold next_state, Cell_next_state, Dead_next_state, Live_next_state,
    Live_, Dead_.
  frame.
Qed.

Lemma extends_get self row col default : extends (get self row col default).
Proof. unfold get. frame. Qed.

#[local] Hint Resolve extends_next_state extends_get : frame.

Lemma extends_is_coord_alive self coord : extends (is_coord_alive self coord).
Proof. unfold is_coord_alive, Dead_. frame. Qed.

#[local] Hint Resolve extends_is_coord_alive : frame.

Lemma extends_count_live_neighbors self row col :
  extends (count_live_neighbors self row col).
Proof. unfold count_live_neighbors. frame. Qed.

Lemma extends_coordinate self : extends (coordinate self).
Proof. unfold coordinate. frame. Qed.

#[local] Hint Resolve extends_count_live_neighbors extends_coordinate : frame.

Lemma extends_grid_with_live_neighbor_counts self :
  extends (grid_with_live_neighbor_counts self).
Proof. unfold grid_with_live_neighbor_counts. frame. Qed.

(** The items of the generator are calls of [count_live_neighbors]. *)
Lemma grid_with_live_neighbor_counts_items self rows :
  returns (grid_with_live_neighbor_counts self) rows ->
  forall row item, row ∈ rows -> item ∈ row -> extends item.
Proof.
  intros [s H] row item Hrow Hitem.
  unfold grid_with_live_neighbor_counts in H.
  apply bind_returns in H as (coordinated & s' & _ & H).
  injection H as <-.
  apply list_elem_of_fmap in Hrow as [cr [-> _]].
  apply list_elem_of_fmap in Hitem as [rc [-> _]].
  frame.
Qed.

#[local] Hint Resolve extends_grid_with_live_neighbor_counts : frame.

Lemma extends_next_cells (rows : list (list (M (loc * Z)))) :
  (forall row item, row ∈ rows -> item ∈ row -> extends item) ->
  extends (mapM (fun row =>
                   mapM (fun item => cn <- item ;; next_state (fst cn) (snd cn))
                        row)
                rows).
Proof.
  intros Hitems. apply extends_mapM. intros row Hrow.
  apply extends_mapM. intros item Hitem.
  apply extends_bind; [now apply (Hitems row)|]. intros cn. frame.
Qed.

Lemma extends_next_generation self : extends (next_generation self).
Proof.
  unfold next_generation.
  apply extends_bind_returns; [frame|]. intros rows Hrows.
  apply extends_bind; [|intros; frame].
  apply extends_next_cells.
  now apply (grid_with_live_neighbor_counts_items self).
Qed.

(** ** What a run returns is new *)

Lemma antitone_fresh : antitone fresh_at.
Proof. intros n n' l Hn Hl. unfold fresh_at in *. lia. Qed.

Lemma antitone_Forall {A} (P : nat -> A -> Prop) :
  antitone P -> antitone (fun n => Forall (P n)).
Proof.
  intros HP n n' xs Hn Hxs. eapply Forall_impl; [exact Hxs|].
  intros x Hx. now apply (HP n).
Qed.

Lemma ensures_raise {A} (P : nat -> A -> Prop) e : ensures P (raise e).
Proof. intros s a H. discriminate. Qed.

Lemma ensures_bind {A B} (P : nat -> B -> Prop) (m : M A) (k : A -> M B) :
  antitone P -> extends m -> (forall a, ensures P (k a)) ->
  ensures P (bind m k).
Proof.
  intros HP Hm Hk s b H.
  apply bind_returns in H as (a & s' & Hrun & H).
  apply (HP (length s')); [|now apply (Hk a)].
  apply prefix_length. specialize (Hm s). now rewrite Hrun in Hm.
Qed.

Lemma ensures_mapM {A B} (P : nat -> B -> Prop) (f : A -> M B) (xs : list A) :
  antitone P ->
  (forall x, x ∈ xs -> extends (f x)) ->
  (forall x, x ∈ xs -> ensures P (f x)) ->
  ensures (fun n => Forall (P n)) (mapM f xs).
Proof.
  intros HP. induction xs as [|x xs IH]; intros Hext Hens s ys H.
  - injection H as <-. constructor.
  - simpl in H.
    apply bind_returns in H as (y & s1 & Hy & H).
    apply bind_returns in H as (ys' & s2 & Hys & H).
    injection H as <-.
    assert (Hlen : (length s <= length s1)%nat).
    { apply prefix_length. generalize (Hext x ltac:(left) s).
      now rewrite Hy. }
    constructor.
    + apply (Hens x ltac:(left) s). now rewrite Hy.
    + apply (antitone_Forall P HP (length s1)); [exact Hlen|].
      apply (IH (fun z Hz => Hext z ltac:(now right))
                (fun z Hz => Hens z ltac:(now right)) s1).
      now rewrite Hys.
Qed.

Lemma ensures_instantiate c args : ensures fresh_at (instantiate c args).
Proof.
  intros s l H. apply instantiate_result in H as ->. unfold fresh_at. lia.
Qed.

Lemma ensures_next_state cell n : ensures fresh_at (next_state cell n).
Proof.
  unfold next_state. apply ensures_bind; [apply antitone_fresh|frame|].
  intros c.
  unfold Cell_next_state, Dead_next_state, Live_next_state, Live_, Dead_.
  destruct c; [apply ensures_raise| |]; case_match; apply ensures_instantiate.
Qed.

Lemma ensures_next_cells (rows : list (list (M (loc * Z)))) :
  (forall row item, row ∈ rows -> item ∈ row -> extends item) ->
  ensures (fun n => Forall (Forall (fresh_at n)))
    (mapM (fun row =>
             mapM (fun item => cn <- item ;; next_state (fst cn) (snd cn))
                  row)
          rows).
Proof.
  intros Hitems.
  apply (ensures_mapM (fun n => Forall (fresh_at n))).
  - apply antitone_Forall, antitone_fresh.
  - intros row Hrow. apply extends_mapM. intros item Hitem.
    apply extends_bind; [now apply (Hitems row)|]. intros cn. frame.
  - intros row Hrow. apply (ensures_mapM fresh_at).
    + apply antitone_fresh.
    + intros item Hitem.
      apply extends_bind; [now apply (Hitems row)|]. intros cn. frame.
    + intros item Hitem.
      apply ensures_bind; [apply antitone_fresh|now apply (Hitems row)|].
      intros cn. apply ensures_next_state.
Qed.

(** When [next_generation] returns, the game it returns is a new object whose
    grid holds new cells only. *)
Lemma next_generation_returns self s g :
  outcome (next_generation self s) = inr g ->
  exists s' grid h w,
    s `prefix_of` s' /\ g = length s' /\
    final (next_generation self s) = s' ++ [GameObj (Some grid) h w] /\
    Forall (Forall (fresh_at (length s))) grid.
Proof.
  unfold next_generation. intros H.
  destruct (grid_with_live_neighbor_counts self s) as [[e|rows] s1] eqn:E1.
  { rewrite (bind_inl _ _ _ _ _ E1) in H. discriminate. }
  rewrite (bind_inr _ _ _ _ _ E1) in H |- *.
  assert (Hitems : forall row item, row ∈ rows -> item ∈ row -> extends item).
  { apply (grid_with_live_neighbor_counts_items self).
    exists s. now rewrite E1. }
  assert (H1 : s `prefix_of` s1).
  { generalize (extends_grid_with_live_neighbor_counts self s).
    now rewrite E1. }
  match type of H with
  | outcome (bind ?m _ _) = _ =>
      destruct (m s1) as [[e|grid] s2] eqn:E2
  end.
  { rewrite (bind_inl _ _ _ _ _ E2) in H. discriminate. }
  rewrite (bind_inr _ _ _ _ _ E2) in H |- *.
  assert (H2 : s1 `prefix_of` s2).
  { generalize (extends_next_cells rows Hitems s1). now rewrite E2. }
  assert (Hfresh : Forall (Forall (fresh_at (length s1))) grid).
  { apply (ensures_next_cells rows Hitems s1). now rewrite E2. }
  rewrite GameOfLife__run in H |- *.
  destruct grid as [|row0 grid]; [discriminate|].
  injection H as <-.
  eexists s2, _, _, _. split; [now transitivity s1|].
  split; [reflexivity|]. split; [reflexivity|].
  apply (antitone_Forall _ (antitone_Forall _ antitone_fresh) (length s1));
    [now apply prefix_length|exact Hfresh].
Qed.

(** * The claims *)

(** C1 (rule table of [next_generation]).  Both branches of
    [Dead.next_state] and of [Live.next_state] are constructor calls without
    the argument [Cell.__init__] requires, so for every neighbour count both
    methods raise [TypeError] and return neither an ALIVE nor a DEAD cell; the
    next generation of the one-cell game [GameOfLife(grid=[[Live(True)]])]
    raises [TypeError] and has no cell at (0, 0). *)
Theorem next_state_rule_table_raises :
  (forall cell n s,
      outcome (Dead_next_state cell n s) = inl TypeError
      /\ outcome (Live_next_state cell n s) = inl TypeError)
  /\ outcome ((g <- make_game [[true]] ;; next_generation g) []) = inl TypeError.
Proof.
  split.
  - intros cell n s. split;
      [apply Dead_next_state_raises|apply Live_next_state_raises].
  - reflexivity.
Qed.

(** C2 (live-neighbour count).  For every game, every coordinate and every
    store, [count_live_neighbors] raises [TypeError] at the first of the
    eight neighbours, where the argument [default=Dead()] is evaluated: no
    count is produced. *)
Theorem count_live_neighbors_always_raises self row col s :
  outcome (count_live_neighbors self row col s) = inl TypeError.
Proof. now rewrite count_live_neighbors_raises. Qed.

(** C3 (a next generation for every well-formed grid).  For every game whose
    grid is non-empty and rectangular of positive width,
    [next_generation] raises [TypeError]; it does not return a grid. *)
Theorem next_generation_well_formed_raises s self grid w :
  s !! self = Some (GameObj (Some grid) (Some (len grid)) (Some w)) ->
  grid <> [] ->
  0 < w ->
  Forall (fun row => len row = w) grid ->
  outcome (next_generation self s) = inl TypeError.
Proof.
  intros Hself Hne Hw Hrect.
  eapply next_generation_raises; [exact Hself|].
  now apply (rectangular_has_cell grid w).
Qed.

Lemma next_generation_well_formed_raises_witness :
  outcome (next_generation 1%nat one_live_cell) = inl TypeError.
Proof.
  apply (next_generation_well_formed_raises one_live_cell 1%nat [[0%nat]] 1).
  - reflexivity.
  - discriminate.
  - lia.
  - repeat constructor.
Defined.

(** C4 (render after parse).  For every seed text, rendering the parsed seed
    raises: [IndexError] when the text has no non-empty line, [TypeError] at
    the first character otherwise.  No text is reproduced. *)
Theorem render_parse_raises string s :
  outcome (render_parse string s)
  = inl (match non_empty_lines string with
         | [] => IndexError
         | _ :: _ => TypeError
         end).
Proof.
  unfold render_parse. apply outcome_bind_inl.
  destruct (non_empty_lines string) as [|line lines] eqn:E.
  - now rewrite from_str_no_row.
  - apply from_str_some_row. now rewrite E.
Qed.

(** C5 ([next_generation] does not mutate its input).  Whatever the store and
    the game, after the call, returned or raised, every object that was in
    the store is there unchanged: the game with its grid, height and width,
    and every cell with its [is_alive].  When the call returns, the game it
    returns is a new object and every cell of its grid is a new object. *)
Theorem next_generation_does_not_mutate (self : loc) (s : store) :
  let r := next_generation self s in
  (forall l obj, s !! l = Some obj -> final r !! l = Some obj)
  /\ (forall g, outcome r = inr g ->
        s !! g = None
        /\ exists grid h w,
             final r !! g = Some (GameObj (Some grid) h w)
             /\ forall row cell, row ∈ grid -> cell ∈ row -> s !! cell = None).
Proof.
  intros r. split.
  - intros l obj Hl. eapply prefix_lookup_Some; [exact Hl|].
    apply extends_next_generation.
  - intros g Hg. subst r.
    destruct (next_generation_returns self s g Hg)
      as (s' & grid & h & w & Hpre & -> & Hfinal & Hfresh).
    split.
    + apply lookup_ge_None. now apply prefix_length.
    + exists grid, h, w. split.
      * rewrite Hfinal. apply lookup_fresh.
      * intros row cell Hrow Hcell. apply lookup_ge_None.
        rewrite Forall_forall in Hfresh. specialize (Hfresh row Hrow).
        rewrite Forall_forall in Hfresh. exact (Hfresh cell Hcell).
Qed.

Lemma next_generation_does_not_mutate_witness :
  final (next_generation 1%nat one_live_cell) !! 0%nat
  = Some (CellObj Live_cls (Some true))
  /\ final (next_generation 1%nat one_live_cell) !! 1%nat
     = Some (GameObj (Some [[0%nat]]) (Some 1) (Some 1))
  /\ one_empty_row !! 1%nat = None.
Proof.
  destruct (next_generation_does_not_mutate 1%nat one_live_cell) as [Hframe _].
  destruct (next_generation_does_not_mutate 0%nat one_empty_row) as [_ Hnew].
  split; [|split].
  - apply Hframe. reflexivity.
  - apply Hframe. reflexivity.
  - apply (Hnew 1%nat). reflexivity.
Defined.

(** C6, as stated, fails on the text without any character: it has no
    non-empty row, and [from_str] ends with the [IndexError] of [grid[0]] in
    the constructor, not with [MalformedSeed]. *)
Lemma from_str_empty_text_IndexError :
  non_empty_lines [] = []
  /\ outcome (from_str [] []) = inl IndexError
  /\ outcome (from_str [] []) <> inl MalformedSeed.
Proof. repeat split. discriminate. Qed.

(** C6, amended.  [from_str] ends with [MalformedSeed] on no text; on a text
    without non-empty row it ends with [IndexError]; and a character outside
    the alphabet is not rejected: [Cell.from_str] handles every character
    other than the digit zero exactly as it handles the middle dot. *)
Theorem from_str_never_MalformedSeed string s :
  outcome (from_str string s) <> inl MalformedSeed
  /\ (non_empty_lines string = [] ->
      outcome (from_str string s) = inl IndexError)
  /\ (forall c, c <> chr_live -> Cell_from_str [c] = Cell_from_str [chr_dead]).
Proof.
  split; [|split].
  - destruct (non_empty_lines string) as [|line lines] eqn:E.
    + now rewrite from_str_no_row.
    + rewrite from_str_some_row; [discriminate|]. now rewrite E.
  - intros E. now rewrite from_str_no_row.
  - intros c Hc. unfold Cell_from_str.
    rewrite bool_decide_eq_false_2; [reflexivity|].
    unfold Live_string_form, chr_live in *. congruence.
Qed.

Lemma from_str_never_MalformedSeed_witness :
  outcome (from_str [chr_nl; chr_nl] []) <> inl MalformedSeed
  /\ outcome (from_str [chr_nl; chr_nl] []) = inl IndexError
  /\ Cell_from_str [120%N] = Cell_from_str [chr_dead].
Proof.
  destruct (from_str_never_MalformedSeed [chr_nl; chr_nl] []) as (H1 & H2 & H3).
  split; [exact H1|]. split; [apply H2; reflexivity|].
  apply H3. discriminate.
Defined.

(** C7, as stated, fails at height 0 and width 3: [dead_grid] returns the
    empty list of rows, it does not raise [InvalidDimensions]. *)
Lemma dead_grid_zero_height_returns :
  dead_grid (Some 0) (Some 3) [] = (inr [], [])
  /\ outcome (dead_grid (Some 0) (Some 3) []) <> inl InvalidDimensions.
Proof. split; [reflexivity|discriminate]. Qed.

(** C7, amended.  When height <= 0 or width <= 0, [dead_grid] raises nothing
    and makes no cell: it returns the empty list when height <= 0, and
    [height] empty rows when height > 0 and width <= 0. *)
Theorem dead_grid_without_cell height width s :
  height <= 0 \/ width <= 0 ->
  dead_grid (Some height) (Some width) s
  = (inr (replicate (Z.to_nat height) []), s).
Proof. apply dead_grid_no_cell. Qed.

Lemma dead_grid_without_cell_witness :
  dead_grid (Some 2) (Some (-1)) [] = (inr [[]; []], []).
Proof. apply (dead_grid_without_cell 2 (-1) []). right. lia. Defined.

(** C8 (glider).  Parsing the glider seed raises [TypeError] at its first
    character, and the next generation of the same grid built cell by cell
    raises [TypeError]: no generation follows the seed. *)
Theorem glider_raises :
  outcome (from_str glider_string []) = inl TypeError
  /\ outcome ((g <- make_game glider_rows ;; next_generation g) [])
     = inl TypeError.
Proof. split; vm_compute; reflexivity. Qed.

(** C9 (parsing succeeds on every character).  On every text that has a
    non-empty line, [from_str] raises [TypeError]: [Cell.from_str] raises it
    for the digit zero and for every other character alike. *)
Theorem from_str_raises_at_first_character string s :
  non_empty_lines string <> [] ->
  outcome (from_str string s) = inl TypeError
  /\ forall c s', outcome (Cell_from_str [c] s') = inl TypeError.
Proof.
  intros H. split; [now apply from_str_some_row|].
  intros c s'. apply Cell_from_str_raises.
Qed.

Lemma from_str_raises_at_first_character_witness :
  outcome (from_str [chr_live] []) = inl TypeError.
Proof.
  apply (from_str_raises_at_first_character [chr_live] []). discriminate.
Defined.

(** C10 (the all-dead grid is a fixed point).  For positive height and width,
    [dead_grid] raises [TypeError] at its first cell, and the next generation
    of the all-dead game built cell by cell raises [TypeError]. *)
Theorem dead_grid_generation_raises height width s :
  0 < height ->
  0 < width ->
  outcome (dead_grid (Some height) (Some width) s) = inl TypeError
  /\ outcome ((g <- make_game (dead_rows height width) ;; next_generation g) s)
     = inl TypeError.
Proof.
  intros Hh Hw. split; [now apply dead_grid_raises|].
  apply make_game_next_generation_raises. unfold dead_rows.
  destruct (Z.to_nat height) as [|n] eqn:Eh; [lia|].
  destruct (Z.to_nat width) as [|m] eqn:Ew; [lia|].
  eexists. split; [left|discriminate].
Qed.

Lemma dead_grid_generation_raises_witness :
  outcome (dead_grid (Some 2) (Some 3) []) = inl TypeError
  /\ outcome ((g <- make_game (dead_rows 2 3) ;; next_generation g) [])
     = inl TypeError.
Proof. apply (dead_grid_generation_raises 2 3 []); lia. Defined.

(** * Further properties of the code *)

(** ** Constructors *)

(** X1.  A call of a cell class returns exactly when it passes one argument:
    it then returns a new object of that class whose [is_alive] is the
    argument, and the store is otherwise as before.  With no argument, or with
    more than one, the call raises [TypeError]. *)
Theorem cell_constructor_arity c args s :
  match args with
  | [b] => instantiate c args s = (inr (length s), s ++ [CellObj c (Some b)])
  | _ => outcome (instantiate c args s) = inl TypeError
  end.
Proof.
  destruct args as [|b [|b' args]]; [reflexivity| |reflexivity].
  apply instantiate_one_arg.
Qed.

(** X2.  [GameOfLife(grid=grid)] accepts every list of rows that has a first
    row, rectangular or not: the new game has the list as its [grid], the
    number of rows as [height] and the length of the first row as [width].
    With no row it raises [IndexError]. *)
Theorem game_constructor_first_row grid s :
  match grid with
  | [] => outcome (GameOfLife_ grid s) = inl IndexError
  | row0 :: _ =>
      GameOfLife_ grid s
      = (inr (length s),
         s ++ [GameObj (Some grid) (Some (len grid)) (Some (len row0))])
  end.
Proof. rewrite GameOfLife__run. now destruct grid. Qed.

(** ** [get] *)

Lemma getattr_height_run s self grid h w :
  s !! self = Some (GameObj grid (Some h) w) ->
  getattr_height self s = (inr h, s).
Proof. intros H. unfold getattr_height, bind, load. now rewrite H. Qed.

Lemma getattr_width_run s self grid h w :
  s !! self = Some (GameObj grid h (Some w)) ->
  getattr_width self s = (inr w, s).
Proof. intros H. unfold getattr_width, bind, load. now rewrite H. Qed.

Lemma getitem_nonneg {A} (l : list A) i s :
  0 <= i ->
  getitem l i s = match l !! Z.to_nat i with
                  | Some x => (inr x, s)
                  | None => (inl IndexError, s)
                  end.
Proof.
  intros Hi. unfold getitem.
  destruct (i <? 0) eqn:E; [lia|]. rewrite E. now destruct (l !! _).
Qed.

Lemma get_run s self grid h w row col default :
  s !! self = Some (GameObj (Some grid) (Some h) (Some w)) ->
  get self row col default s =
  if (0 <=? row) && (row <? h) && ((0 <=? col) && (col <? w)) then
    match grid !! Z.to_nat row ≫= (fun r => r !! Z.to_nat col) with
    | Some cell => (inr (Some cell), s)
    | None => (inl IndexError, s)
    end
  else (inr default, s).
Proof.
  intros Hself. unfold get.
  assert (Hrows : (if 0 <=? row
                   then height <- getattr_height self ;; ret (row <? height)
                   else ret false) s
                  = (inr ((0 <=? row) && (row <? h)), s)).
  { destruct (0 <=? row); [|reflexivity].
    now rewrite (bind_inr _ _ _ _ _ (getattr_height_run _ _ _ _ _ Hself)). }
  assert (Hcols : (if 0 <=? col
                   then width <- getattr_width self ;; ret (col <? width)
                   else ret false) s
                  = (inr ((0 <=? col) && (col <? w)), s)).
  { destruct (0 <=? col); [|reflexivity].
    now rewrite (bind_inr _ _ _ _ _ (getattr_width_run _ _ _ _ _ Hself)). }
  rewrite (bind_inr _ _ _ _ _ Hrows), (bind_inr _ _ _ _ _ Hcols).
  destruct ((0 <=? row) && (row <? h)) eqn:Er; [|reflexivity].
  destruct ((0 <=? col) && (col <? w)) eqn:Ec; [|reflexivity].
  cbn [andb].
  rewrite (bind_inr _ _ _ _ _ (getattr_grid_run _ _ _ _ _ Hself)).
  unfold bind. rewrite getitem_nonneg by lia.
  destruct (grid !! Z.to_nat row) as [r|]; [|reflexivity].
  cbn [mbind option_bind]. rewrite getitem_nonneg by lia.
  now destruct (r !! Z.to_nat col).
Qed.

(** X3.  [get] on a game whose attributes are set: inside
    [0, height) x [0, width) it is [grid[row][col]], which raises
    [IndexError] when the grid has no such row or the row no such column;
    everywhere else it is [default], whatever the grid.  The store is never
    changed. *)
Theorem get_inside_or_default s self grid h w row col default :
  s !! self = Some (GameObj (Some grid) (Some h) (Some w)) ->
  get self row col default s =
  if (0 <=? row) && (row <? h) && ((0 <=? col) && (col <? w)) then
    match grid !! Z.to_nat row ≫= (fun r => r !! Z.to_nat col) with
    | Some cell => (inr (Some cell), s)
    | None => (inl IndexError, s)
    end
  else (inr default, s).
Proof. apply get_run. Qed.

Lemma get_inside_or_default_witness :
  get 1%nat 0 0 None one_live_cell = (inr (Some 0%nat), one_live_cell)
  /\ get 1%nat (-1) 0 None one_live_cell = (inr None, one_live_cell).
Proof.
  split.
  - apply (get_inside_or_default one_live_cell 1%nat [[0%nat]] 1 1 0 0 None).
    reflexivity.
  - apply (get_inside_or_default one_live_cell 1%nat [[0%nat]] 1 1 (-1) 0 None).
    reflexivity.
Defined.

(** X4.  On a rectangular game ([height] rows of [width] cells) [get] never
    raises: inside the grid it returns the cell at that row and column,
    outside it returns [default].  A negative index does not wrap around to
    the far edge, as it would in a Python list. *)
Theorem get_rectangular s self grid w row col default :
  s !! self = Some (GameObj (Some grid) (Some (len grid)) (Some w)) ->
  Forall (fun r => len r = w) grid ->
  (0 <= row < len grid /\ 0 <= col < w ->
   exists r cell, grid !! Z.to_nat row = Some r
                  /\ r !! Z.to_nat col = Some cell
                  /\ get self row col default s = (inr (Some cell), s))
  /\ (~ (0 <= row < len grid /\ 0 <= col < w) ->
      get self row col default s = (inr default, s)).
Proof.
  intros Hself Hrect.
  rewrite (get_run _ _ _ _ _ _ _ _ Hself). split.
  - intros [Hr Hc].
    destruct (grid !! Z.to_nat row) as [r|] eqn:Er.
    2:{ apply lookup_ge_None in Er. unfold len in Hr. lia. }
    assert (Hlen : len r = w).
    { rewrite Forall_forall in Hrect. apply Hrect.
      eapply list_elem_of_lookup_2, Er. }
    destruct (r !! Z.to_nat col) as [cell|] eqn:Ec.
    2:{ apply lookup_ge_None in Ec. unfold len in Hlen. lia. }
    exists r, cell. split; [reflexivity|]. split; [exact Ec|].
    replace ((0 <=? row) && (row <? len grid) && ((0 <=? col) && (col <? w)))
      with true by (symmetry; rewrite !andb_true_iff; lia).
    cbn [mbind option_bind]. now rewrite Ec.
  - intros Hout.
    destruct ((0 <=? row) && (row <? len grid) && ((0 <=? col) && (col <? w)))
      eqn:E; [|reflexivity].
    rewrite !andb_true_iff in E. lia.
Qed.

Lemma get_rectangular_witness :
  (exists r cell, [[0%nat]] !! Z.to_nat 0 = Some r
                  /\ r !! Z.to_nat 0 = Some cell
                  /\ get 1%nat 0 0 None one_live_cell
                     = (inr (Some cell), one_live_cell))
  /\ get 1%nat 0 (-1) None one_live_cell = (inr None, one_live_cell).
Proof.
  destruct (get_rectangular one_live_cell 1%nat [[0%nat]] 1 0 0 None)
    as [Hin _]; [reflexivity|repeat constructor|].
  destruct (get_rectangular one_live_cell 1%nat [[0%nat]] 1 0 (-1) None)
    as [_ Hout]; [reflexivity|repeat constructor|].
  split; [apply Hin|apply Hout]; unfold len; simpl; lia.
Defined.

(** ** [coordinate], [count_live_neighbors], the generator *)






(** X7.  Making the generator of [grid_with_live_neighbor_counts] computes
    nothing yet: the call returns, with one pending item for each cell of the
    grid in the grid's layout, and leaves the store as it is.  The exception
    of [count_live_neighbors] arises only when an item is asked for. *)
Theorem generator_is_lazy s self grid h w :
  s !! self = Some (GameObj (Some grid) h w) ->
  exists rows,
    grid_with_live_neighbor_counts self s = (inr rows, s)
    /\ map length rows = map length grid
    /\ forall row item s',
         row ∈ rows -> item ∈ row -> outcome (item s') = inl TypeError.
Proof.
  intros Hself. eexists. split; [|split].
  - unfold grid_with_live_neighbor_counts, coordinate.
    erewrite bind_inr; [reflexivity|].
    rewrite (bind_inr _ _ _ _ _ (getattr_grid_run _ _ _ _ _ Hself)).
    reflexivity.
  - rewrite !map_map. rewrite <- (enumerate_snd grid) at 2.
    rewrite map_map. apply map_ext. intros [i r]. cbn [fst snd].
    rewrite !length_map. rewrite <- (enumerate_snd r) at 2.
    now rewrite length_map.
  - intros row item s' Hrow Hitem.
    apply list_elem_of_fmap in Hrow as [cr [-> _]].
    apply list_elem_of_fmap in Hitem as [rc [-> _]].
    apply outcome_bind_inl. now rewrite count_live_neighbors_raises.
Qed.

Lemma generator_is_lazy_witness :
  exists rows,
    grid_with_live_neighbor_counts 1%nat one_live_cell
    = (inr rows, one_live_cell)
    /\ map length rows = map length [[0%nat]]
    /\ forall row item s',
         row ∈ rows -> item ∈ row -> outcome (item s') = inl TypeError.
Proof.
  apply (generator_is_lazy one_live_cell 1%nat [[0%nat]] (Some 1) (Some 1)).
  reflexivity.
Defined.

(** ** [next_state], [dead_grid] *)

(** X8.  [next_state] never returns a cell.  On an instance of the base class
    [Cell] it raises [NotImplementedError]; on an instance of [Dead] or
    [Live] it raises [TypeError], whatever the count and whatever the cell's
    [is_alive]. *)
Theorem next_state_never_returns s cell c a n :
  s !! cell = Some (CellObj c a) ->
  outcome (next_state cell n s)
  = inl (match c with
         | Cell_cls => NotImplementedError
         | Dead_cls | Live_cls => TypeError
         end).
Proof.
  intros Hcell. unfold next_state.
  assert (Hc : class_of cell s = (inr c, s)).
  { unfold class_of, bind, load. now rewrite Hcell. }
  rewrite (bind_inr _ _ _ _ _ Hc).
  destruct c; [reflexivity| |].
  - apply Dead_next_state_raises.
  - apply Live_next_state_raises.
Qed.

Lemma next_state_never_returns_witness :
  outcome (next_state 0%nat 3 one_live_cell) = inl TypeError.
Proof.
  apply (next_state_never_returns one_live_cell 0%nat Live_cls (Some true) 3).
  reflexivity.
Defined.

(** X9.  [dead_grid] for every way of calling it.  Without [height] it raises
    [TypeError].  With [height <= 0] it returns the empty list, even without
    [width].  With [height > 0] it raises [TypeError] without [width] and
    with [width > 0], and returns [height] empty rows with [width <= 0].  It
    never returns a row that has a cell. *)
Theorem dead_grid_outcome height width s :
  outcome (dead_grid height width s)
  = match height with
    | None => inl TypeError
    | Some h =>
        if h <=? 0 then inr []
        else match width with
             | None => inl TypeError
             | Some w =>
                 if w <=? 0 then inr (replicate (Z.to_nat h) [])
                 else inl TypeError
             end
    end.
Proof.
  destruct height as [h|]; [|reflexivity].
  destruct (h <=? 0) eqn:Eh.
  - unfold dead_grid, range. replace (Z.to_nat h) with 0%nat by lia.
    reflexivity.
  - destruct width as [w|].
    + destruct (w <=? 0) eqn:Ew.
      * rewrite dead_grid_no_cell by lia. reflexivity.
      * apply dead_grid_raises; lia.
    + unfold dead_grid, range.
      destruct (Z.to_nat h) as [|n] eqn:En; [lia|]. reflexivity.
Qed.

(** ** [__str__] *)

Lemma Cell__str___run s l b :
  cell_holds s l b -> Cell__str__ l s = (inr [symbol b], s).
Proof.
  intros [c Hl]. unfold Cell__str__, getattr_is_alive, bind, load.
  rewrite Hl. now destruct b.
Qed.

Lemma mapM_Cell__str___run s row flags :
  Forall2 (cell_holds s) row flags ->
  mapM Cell__str__ row s = (inr (map (fun b => [symbol b]) flags), s).
Proof.
  induction 1 as [|l b row flags Hl _ IH]; [reflexivity|].
  simpl. rewrite (bind_inr _ _ _ _ _ (Cell__str___run _ _ _ Hl)).
  now rewrite (bind_inr _ _ _ _ _ IH).
Qed.

Lemma join_nil_singletons {A} (f : A -> char) (l : list A) :
  join [] (map (fun a => [f a]) l) = map f l.
Proof.
  induction l as [|a l IH]; [reflexivity|].
  destruct l as [|a' l]; [reflexivity|].
  change (join [] (map (fun a => [f a]) (a :: a' :: l)))
    with ([f a] ++ [] ++ join [] (map (fun a => [f a]) (a' :: l))).
  now rewrite IH.
Qed.

Lemma render_rows_run s grid flags :
  cells_hold s grid flags ->
  mapM (fun row => strs <- mapM Cell__str__ row ;; ret (join [] strs)) grid s
  = (inr (map (map symbol) flags), s).
Proof.
  induction 1 as [|row fl grid flags Hrow _ IH]; [reflexivity|].
  simpl.
  erewrite bind_inr; cycle 1.
  { rewrite (bind_inr _ _ _ _ _ (mapM_Cell__str___run _ _ _ Hrow)).
    reflexivity. }
  rewrite (bind_inr _ _ _ _ _ IH). now rewrite join_nil_singletons.
Qed.

Lemma str_run s self grid h w flags :
  s !! self = Some (GameObj (Some grid) h w) ->
  cells_hold s grid flags ->
  __str__ self s = (inr (text_of flags), s).
Proof.
  intros Hself Hcells. unfold __str__.
  rewrite (bind_inr _ _ _ _ _ (getattr_grid_run _ _ _ _ _ Hself)).
  now rewrite (bind_inr _ _ _ _ _ (render_rows_run _ _ _ Hcells)).
Qed.

(** X10.  [__str__] of a game whose cells are initialised returns the text of
    its grid: for each cell the digit zero when its [is_alive] is true and
    the middle dot otherwise, whatever the class of the cell, the rows
    separated by a line feed, no line feed after the last row.  The store is
    left as it is. *)
Theorem str_renders_flags s self grid h w flags :
  s !! self = Some (GameObj (Some grid) h w) ->
  cells_hold s grid flags ->
  __str__ self s = (inr (text_of flags), s).
Proof. apply str_run. Qed.

Lemma str_renders_flags_witness :
  __str__ 1%nat one_live_cell = (inr [chr_live], one_live_cell).
Proof.
  apply (str_renders_flags one_live_cell 1%nat [[0%nat]] (Some 1) (Some 1)
           [[true]]).
  - reflexivity.
  - repeat constructor. now exists Live_cls.
Defined.

(** ** [splitlines] and the rows [from_str] parses *)

Lemma splitlines_from_induction (P : pystr -> pystr -> Prop) :
  (forall cur s,
      (forall cur' s', (length s' < length s)%nat -> P cur' s') -> P cur s) ->
  forall cur s, P cur s.
Proof.
  intros step cur s.
  assert (H : forall n cur s, (length s < n)%nat -> P cur s).
  { induction n as [|n IH]; intros cur' s' Hlen; [lia|].
    apply step. intros cur'' s'' Hlt. apply IH. lia. }
  apply (H (S (length s))). lia.
Qed.

(** X11.  No line of [splitlines] contains a line boundary, so no row that
    [from_str] parses does, and none of them is empty: every character of
    every row is one that [Cell.from_str] is called on. *)
Theorem parsed_rows_have_no_linebreak string :
  Forall (Forall no_linebreak) (splitlines string)
  /\ Forall (fun row => row <> [] /\ Forall no_linebreak row)
            (non_empty_lines string).
Proof.
  assert (H : forall cur s,
             Forall no_linebreak cur ->
             Forall (Forall no_linebreak) (splitlines_from cur s)).
  { apply (splitlines_from_induction
             (fun cur s => Forall no_linebreak cur ->
                           Forall (Forall no_linebreak)
                                  (splitlines_from cur s))).
    intros cur s IH Hcur. destruct s as [|c rest]; simpl.
    - destruct cur; repeat constructor.
      apply Forall_rev. exact Hcur.
    - destruct (is_linebreak c) eqn:Ec.
      + constructor; [now apply Forall_rev|].
        destruct rest as [|c' rest'].
        * apply IH; [simpl; lia|constructor].
        * destruct ((c =? 13)%N && (c' =? 10)%N);
            (apply IH; [simpl; lia|constructor]).
      + apply IH; [simpl; lia|]. now constructor. }
  assert (Hall : Forall (Forall no_linebreak) (splitlines string))
    by (apply H; constructor).
  split; [exact Hall|].
  rewrite Forall_forall in Hall |- *. intros row Hrow. split.
  - now apply (non_empty_lines_non_empty string).
  - apply Hall. unfold non_empty_lines in Hrow.
    rewrite list_elem_of_In, filter_In in Hrow.
    rewrite list_elem_of_In. tauto.
Qed.

Lemma splitlines_from_concat cur s :
  concat (splitlines_from cur s)
  = rev cur ++ List.filter (fun c => negb (is_linebreak c)) s.
Proof.
  revert cur s.
  apply (splitlines_from_induction
           (fun cur s =>
              concat (splitlines_from cur s)
              = rev cur ++ List.filter (fun c => negb (is_linebreak c)) s)).
  intros cur s IH. destruct s as [|c rest]; simpl.
  - destruct cur as [|c cur]; [reflexivity|].
    cbn [concat]. now rewrite !app_nil_r.
  - destruct (is_linebreak c) eqn:Ec; cbn [negb concat].
    + f_equal. destruct rest as [|c' rest']; [reflexivity|].
      destruct ((c =? 13)%N && (c' =? 10)%N) eqn:E.
      * rewrite IH by (simpl; lia).
        apply andb_true_iff in E as [_ E]. apply N.eqb_eq in E. subst c'.
        reflexivity.
      * rewrite IH by (simpl; lia). reflexivity.
    + rewrite IH by (simpl; lia). simpl. now rewrite <- app_assoc.
Qed.

Lemma concat_non_empty (lines : list pystr) :
  concat (List.filter (fun line => 0 <? len line) lines) = concat lines.
Proof.
  induction lines as [|l lines IH]; [reflexivity|].
  destruct l as [|c l]; [exact IH|].
  cbn [List.filter concat]. now rewrite <- IH.
Qed.

(** X12.  [from_str] loses no character and adds none: the rows it parses,
    one after the other, are the text without its line boundaries, in the
    order of the text. *)
Theorem parsed_rows_keep_characters string :
  concat (non_empty_lines string)
  = List.filter (fun c => negb (is_linebreak c)) string.
Proof.
  unfold non_empty_lines. rewrite concat_non_empty.
  apply (splitlines_from_concat [] string).
Qed.

Lemma splitlines_from_app {cur} (l rest : pystr) :
  Forall no_linebreak l ->
  splitlines_from cur (l ++ rest) = splitlines_from (rev l ++ cur) rest.
Proof.
  intros Hl. revert cur. induction Hl as [|c l Hc _ IH]; intros cur.
  - reflexivity.
  - simpl. rewrite Hc, IH. now rewrite <- app_assoc.
Qed.

Lemma splitlines_from_nl cur rest :
  splitlines_from cur (chr_nl :: rest) = rev cur :: splitlines_from [] rest.
Proof. now destruct rest. Qed.

Lemma non_empty_lines_join (lines : list pystr) :
  Forall (Forall no_linebreak) lines ->
  non_empty_lines (join [chr_nl] lines)
  = List.filter (fun line => 0 <? len line) lines.
Proof.
  unfold non_empty_lines, splitlines.
  induction 1 as [|l lines Hl Hlines IH]; [reflexivity|].
  destruct lines as [|l' lines].
  - change (join [chr_nl] [l]) with l.
    rewrite <- (app_nil_r l) at 1. rewrite (splitlines_from_app l []) by easy.
    rewrite app_nil_r. destruct l as [|c l]; [reflexivity|].
    cbn [splitlines_from].
    destruct (rev (c :: l)) as [|c0 l0] eqn:E.
    + apply (f_equal (@length _)) in E. rewrite length_rev in E.
      discriminate.
    + rewrite <- E, rev_involutive. reflexivity.
  - change (join [chr_nl] (l :: l' :: lines))
      with (l ++ chr_nl :: join [chr_nl] (l' :: lines)).
    rewrite splitlines_from_app by easy.
    rewrite app_nil_r, splitlines_from_nl, rev_involutive.
    cbn [List.filter]. rewrite IH. reflexivity.
Qed.

(** X13.  Splitting a text made of lines joined by line feeds gives the lines
    back, without the empty ones: [from_str] drops an empty line wherever it
    stands, before, after and between the rows. *)
Theorem non_empty_lines_of_joined (lines : list pystr) :
  Forall (Forall no_linebreak) lines ->
  non_empty_lines (join [chr_nl] lines)
  = List.filter (fun line => 0 <? len line) lines.
Proof. apply non_empty_lines_join. Qed.

Lemma non_empty_lines_of_joined_witness :
  non_empty_lines
    (join [chr_nl] [[]; [chr_live; chr_dead]; []; [chr_dead; chr_live]; []])
  = [[chr_live; chr_dead]; [chr_dead; chr_live]].
Proof.
  apply (non_empty_lines_of_joined
           [[]; [chr_live; chr_dead]; []; [chr_dead; chr_live]; []]).
  repeat constructor.
Defined.

Lemma symbol_no_linebreak b : no_linebreak (symbol b).
Proof. now destruct b. Qed.

(** X14.  Rendering and line splitting compose: the text [__str__] returns
    for a game whose cells are initialised and whose rows all have a cell
    splits into exactly the rows of the grid, character by character. *)
Theorem rendered_text_splits_into_rows s self grid h w flags :
  s !! self = Some (GameObj (Some grid) h w) ->
  cells_hold s grid flags ->
  Forall (fun row => row <> []) flags ->
  exists text,
    __str__ self s = (inr text, s)
    /\ non_empty_lines text = map (map symbol) flags.
Proof.
  intros Hself Hcells Hrows. exists (text_of flags).
  split; [now apply (str_run s self grid h w)|].
  unfold text_of. rewrite non_empty_lines_join.
  - clear Hself Hcells.
    induction Hrows as [|row flags Hrow _ IH]; [reflexivity|].
    destruct row as [|b row]; [congruence|].
    cbn [map List.filter]. rewrite IH. reflexivity.
  - apply Forall_forall. intros line Hline.
    apply list_elem_of_fmap in Hline as [row [-> _]].
    apply Forall_forall. intros c Hc.
    apply list_elem_of_fmap in Hc as [b [-> _]].
    apply symbol_no_linebreak.
Qed.

Lemma rendered_text_splits_into_rows_witness :
  exists text,
    __str__ 1%nat one_live_cell = (inr text, one_live_cell)
    /\ non_empty_lines text = [[chr_live]].
Proof.
  apply (rendered_text_splits_into_rows one_live_cell 1%nat [[0%nat]]
           (Some 1) (Some 1) [[true]]).
  - reflexivity.
  - repeat constructor. now exists Live_cls.
  - repeat constructor. discriminate.
Defined.

(** ** What the reading functions leave alone *)

Lemma readonly_ret {A} (a : A) : readonly (ret a).
Proof. intros s. reflexivity. Qed.

Lemma readonly_raise {A} e : readonly (@raise A e).
Proof. intros s. reflexivity. Qed.

Lemma readonly_bind {A B} (m : M A) (k : A -> M B) :
  readonly m -> (forall a, readonly (k a)) -> readonly (bind m k).
Proof.
  intros Hm Hk s. unfold bind. specialize (Hm s).
  destruct (m s) as [[e|a] s']; simpl in Hm; subst s'; [reflexivity|].
  apply Hk.
Qed.

Lemma readonly_mapM {A B} (f : A -> M B) (xs : list A) :
  (forall x, readonly (f x)) -> readonly (mapM f xs).
Proof.
  intros Hf. induction xs as [|x xs IH]; simpl.
  - apply readonly_ret.
  - apply readonly_bind; [apply Hf|]. intros y.
    apply readonly_bind; [exact IH|]. intros ys. apply readonly_ret.
Qed.

Lemma readonly_load l : readonly (load l).
Proof. intros s. unfold load. case_match; reflexivity. Qed.

Lemma readonly_getitem {A} (l : list A) i : readonly (getitem l i).
Proof.
  unfold getitem. destruct (_ <? 0); [apply readonly_raise|].
  destruct (l !! _); [apply readonly_ret|apply readonly_raise].
Qed.

Create HintDb readonly.

#[local] Hint Resolve readonly_ret readonly_raise readonly_load
  readonly_getitem : readonly.

Ltac readonly_step :=
  match goal with
  | |- readonly (bind _ _) => apply readonly_bind; [|intros ?]
  | |- readonly (mapM _ _) => apply readonly_mapM; intros ?
  | |- readonly (match ?x with _ => _ end) => destruct x
  | |- readonly _ => solve [auto with readonly]
  end.

Ltac readonly := repeat readonly_step.

Lemma readonly_getattr_is_alive l : readonly (getattr_is_alive l).
Proof. unfold getattr_is_alive. readonly. Qed.

Lemma readonly_getattr_grid l : readonly (getattr_grid l).
Proof. unfold getattr_grid. readonly. Qed.

Lemma readonly_getattr_height l : readonly (getattr_height l).
Proof. unfold getattr_height. readonly. Qed.

Lemma readonly_getattr_width l : readonly (getattr_width l).
Proof. unfold getattr_width. readonly. Qed.

#[local] Hint Resolve readonly_getattr_is_alive readonly_getattr_grid
  readonly_getattr_height readonly_getattr_width : readonly.

(** X15.  The functions that only read change nothing in the store, on any
    store and any arguments, whether they return or raise: [Cell.__str__],
    [GameOfLife.__str__], [get], [coordinate] and the making of the generator
    of [grid_with_live_neighbor_counts]. *)
Theorem reading_functions_change_nothing self cell row col default s :
  final (Cell__str__ cell s) = s
  /\ final (__str__ self s) = s
  /\ final (get self row col default s) = s
  /\ final (coordinate self s) = s
  /\ final (grid_with_live_neighbor_counts self s) = s.
Proof.
  assert (H1 : readonly (Cell__str__ cell))
    by (unfold Cell__str__; readonly).
  assert (H2 : readonly (__str__ self)).
  { unfold __str__. readonly. unfold Cell__str__. readonly. }
  assert (H3 : readonly (get self row col default))
    by (unfold get; readonly).
  assert (H4 : readonly (coordinate self))
    by (unfold coordinate; readonly).
  assert (H5 : readonly (grid_with_live_neighbor_counts self)).
  { unfold grid_with_live_neighbor_counts. readonly. }
  repeat split; [apply H1|apply H2|apply H3|apply H4|apply H5].
Qed.

(** ** What the building functions leave alone *)

Lemma extends_Cell_from_str string : extends (Cell_from_str string).
Proof. unfold Cell_from_str, Live_, Dead_. frame. Qed.

#[local] Hint Resolve extends_Cell_from_str : frame.

Lemma extends_from_str string : extends (from_str string).
Proof. unfold from_str. frame. Qed.

Lemma extends_dead_grid height width : extends (dead_grid height width).
Proof. unfold dead_grid, Dead_. frame. Qed.

(** X16.  [from_str], [dead_grid] and [count_live_neighbors] never change an
    object that exists: whether they return or raise, every object of the
    store is afterwards where it was and what it was.  Whatever they make or
    leave behind is new. *)
Theorem building_functions_keep_objects string height width self row col s l obj :
  s !! l = Some obj ->
  final (from_str string s) !! l = Some obj
  /\ final (dead_grid height width s) !! l = Some obj
  /\ final (count_live_neighbors self row col s) !! l = Some obj.
Proof.
  intros Hl. repeat split; (eapply prefix_lookup_Some; [exact Hl|]).
  - apply extends_from_str.
  - apply extends_dead_grid.
  - apply extends_count_live_neighbors.
Qed.

Lemma building_functions_keep_objects_witness :
  final (from_str glider_string one_live_cell) !! 0%nat
  = Some (CellObj Live_cls (Some true))
  /\ final (dead_grid (Some 2) (Some 2) one_live_cell) !! 0%nat
     = Some (CellObj Live_cls (Some true))
  /\ final (count_live_neighbors 1%nat 0 0 one_live_cell) !! 0%nat
     = Some (CellObj Live_cls (Some true)).
Proof.
  apply (building_functions_keep_objects glider_string (Some 2) (Some 2)
           1%nat 0 0 one_live_cell 0%nat).
  reflexivity.
Defined.

(** ** [next_generation] on a grid without any cell *)

Lemma mapM_empty_rows {A B C} (f : A -> M B) (xs : list C) s :
  mapM (mapM f) (map (fun _ => []) xs) s = (inr (map (fun _ => []) xs), s).
Proof.
  induction xs as [|x xs IH]; [reflexivity|].
  cbn [map mapM]. rewrite (bind_inr _ _ s [] s) by reflexivity.
  now rewrite (bind_inr _ _ _ _ _ IH).
Qed.

Lemma enumerate_elem_snd {A} (l : list A) ix : ix ∈ enumerate l -> snd ix ∈ l.
Proof.
  intros H. rewrite <- (enumerate_snd l).
  apply list_elem_of_fmap. now exists ix.
Qed.

(** X17.  [next_generation] returns on the grids that have rows but no cell,
    and only the rows count then: it returns a new game with as many empty
    rows, the same [height] and [width] 0, and leaves the store otherwise as
    it is.  On the grid without rows it raises [IndexError]. *)
Theorem next_generation_without_cells s self grid h w :
  s !! self = Some (GameObj (Some grid) h w) ->
  Forall (fun row => row = []) grid ->
  next_generation self s
  = match grid with
    | [] => (inl IndexError, s ++ [GameObj (Some []) (Some 0) None])
    | _ :: _ =>
        (inr (length s),
         s ++ [GameObj (Some grid) (Some (len grid)) (Some 0)])
    end.
Proof.
  intros Hself Hrows.
  unfold next_generation, grid_with_live_neighbor_counts, coordinate.
  erewrite bind_inr; cycle 1.
  { erewrite bind_inr; [reflexivity|].
    rewrite (bind_inr _ _ _ _ _ (getattr_grid_run _ _ _ _ _ Hself)).
    reflexivity. }
  rewrite map_map.
  erewrite (map_ext_in _ (fun _ => [])); cycle 1.
  { intros ir Hir. apply list_elem_of_In, enumerate_elem_snd in Hir.
    rewrite Forall_forall in Hrows. now rewrite (Hrows _ Hir). }
  erewrite bind_inr; cycle 1.
  { apply (mapM_empty_rows
             (fun item : M (loc * Z) =>
                cn <- item ;; next_state (fst cn) (snd cn))). }
  assert (E : map (fun _ : Z * list loc => @nil loc) (enumerate grid) = grid).
  { rewrite <- (enumerate_snd grid) at 2. apply map_ext_in.
    intros ir Hir. apply list_elem_of_In, enumerate_elem_snd in Hir.
    rewrite Forall_forall in Hrows. now rewrite (Hrows _ Hir). }
  rewrite E, GameOfLife__run.
  destruct grid as [|row grid]; [reflexivity|].
  apply Forall_cons in Hrows as [-> _]. reflexivity.
Qed.

Lemma next_generation_without_cells_witness :
  next_generation 0%nat one_empty_row
  = (inr 1%nat, one_empty_row ++ [GameObj (Some [[]]) (Some 1) (Some 0)]).
Proof.
  apply (next_generation_without_cells one_empty_row 0%nat [[]]
           (Some 1) (Some 0)).
  - reflexivity.
  - repeat constructor.
Defined.
